(** * erc20pump: the log-scanning engine

    A shallow embedding of the scanner's log puller (package [scanner]) and
    of the node adapter it talks to (package [rpc]), followed by the
    properties of the window fetcher, the head refresh and the match
    filter.

    Conventions of the embedding:
    - [uint64] values are integers of [Z]; every addition the Go code
      performs on them is written with its wrap-around modulo [2^64].
    - [common.Address] and [common.Hash] are byte sequences.
    - The Opera node is outside the program.  It is an oracle whose answer
      may depend on everything the worker did before ([Trace]); each call
      and each log line is appended to that trace.
    - A method with a pointer receiver takes the puller and gives back the
      puller it leaves behind. *)

From Stdlib Require Import ZArith List String Lia.
From Stdlib.Strings Require Import Byte.
From stdpp Require Import base countable gmap list.

Local Open Scope Z_scope.

(** ** Machine integers *)

Module uint64.

Definition modulus : Z := 2 ^ 64.
Definition max : Z := modulus - 1.

(** Go's [+] on [uint64]. *)
Definition add (x y : Z) : Z := (x + y) mod modulus.

(** Go's [>] on [uint64]. *)
Definition gt (x y : Z) : bool := x >? y.


End uint64.

(** ** go-ethereum's [common] package, as far as the scanner uses it *)

Module common.

Definition AddressLength : nat := 20.
Definition HashLength : nat := 32.

Definition Address : Type := list byte.
Definition Hash : Type := list byte.

(** [common.Address{}]: twenty zero bytes. *)
Definition zeroAddress : Address := repeat x00 AddressLength.

(** [Address.Bytes] gives the bytes of the array as a slice. *)
Definition Bytes (a : Address) : list byte := a.

End common.

(** Go's [bytes.Compare]: lexicographic comparison of two byte slices,
    0 when equal, -1 when the first is smaller, +1 when it is greater. *)
Fixpoint bytes_Compare (a b : list byte) : Z :=
  match a, b with
  | [], [] => 0
  | [], _ :: _ => -1
  | _ :: _, [] => 1
  | x :: a', y :: b' =>
      match N.compare (Byte.to_N x) (Byte.to_N y) with
      | Lt => -1
      | Gt => 1
      | Eq => bytes_Compare a' b'
      end
  end.

#[global] Instance byte_eq_dec : EqDecision byte := Byte.byte_eq_dec.

#[global] Instance byte_countable : Countable byte :=
  inj_countable Byte.to_N Byte.of_N Byte.of_to_N.

(** ** go-ethereum's [types] package, as far as the scanner uses it *)

Module types.

(** [types.Log]: one event-log record. *)
Record Log : Type := mkLog {
  Address : common.Address;
  Topics : list common.Hash;
  Data : list byte;
  BlockNumber : Z;
  TxHash : common.Hash
}.

(** [types.Transaction]; [To] is nil for a contract creation. *)
Record Transaction : Type := mkTransaction {
  Hash : common.Hash;
  To : option common.Address
}.


End types.

(** ** The outside world *)

(** The text of a Go [error]. *)
Definition error : Type := string.

(** [ethereum.FilterQuery], with the fields [GetLogs] fills in. *)
Record FilterQuery : Type := mkFilterQuery {
  FromBlock : Z;
  ToBlock : Z;
  QueryTopics : list (list common.Hash)
}.

(** An operand of a [log.Println] or [log.Printf] call. *)
Inductive LogArg : Type :=
| Str (s : string)
| Uint (n : Z)
| Addr (a : common.Address)
| Hsh (h : common.Hash).

(** What the worker does to the outside: requests to the node and log
    lines. *)
Inductive Effect : Type :=
| EthBlockNumber
| EthFilterLogs (q : FilterQuery)
| EthTransactionByHash (tx : common.Hash)
| LogLine (args : list LogArg).

Definition Trace : Type := list Effect.

(** What [ethclient.Client.TransactionByHash] gives back: an error, or the
    transaction and its pending flag. *)
Inductive TxResult : Type :=
| TxErr (err : error)
| TxOk (trx : types.Transaction) (isPending : bool).

(** [ethclient.Client]: the node behind the connection.  Each answer may
    depend on the trace so far; a Go call that returns [(v, err)] is a pair
    whose second component is [None] for a nil error. *)
Record Client : Type := mkClient {
  BlockNumber : Trace -> Z * option error;
  FilterLogs : Trace -> FilterQuery -> list types.Log * option error;
  TransactionByHash : Trace -> common.Hash -> TxResult
}.

(** Computations that talk to the outside world. *)
Definition IO (A : Type) : Type := Trace -> A * Trace.

Definition ret {A : Type} (a : A) : IO A := fun t => (a, t).

Definition bind {A B : Type} (c : IO A) (k : A -> IO B) : IO B :=
  fun t => let (a, t') := c t in k a t'.

Declare Scope io_scope.
Delimit Scope io_scope with io.
Notation "x <- c ;; k" := (bind c (fun x => k))
  (at level 100, c at next level, right associativity) : io_scope.
Notation "c ;;; k" := (bind c (fun _ => k))
  (at level 100, right associativity) : io_scope.
Local Open Scope io_scope.

(** Ask the node: the answer is read off the trace so far, then the request
    joins the trace. *)
Definition request {A : Type} (e : Effect) (answer : Trace -> A) : IO A :=
  fun t => (answer t, t ++ [e]).

Definition log_Println (args : list LogArg) : IO unit :=
  fun t => (tt, t ++ [LogLine args]).

(** [log.Printf]: the line is recorded as its format and its operands. *)
Definition log_Printf (format : string) (args : list LogArg) : IO unit :=
  fun t => (tt, t ++ [LogLine (Str format :: args)]).

Definition result {A : Type} (c : IO A) (t : Trace) : A := fst (c t).
Definition trace_after {A : Type} (c : IO A) (t : Trace) : Trace := snd (c t).

(** ** Package [rpc]: the adapter to the Opera node *)

Module rpc.

Record Adapter : Type := mkAdapter {
  ftm : Client
}.

(** [TopBlock] provides the numeric ID of the current head block. *)
Definition TopBlock (a : Adapter) : IO (Z * option error) :=
  request EthBlockNumber (BlockNumber (ftm a)).

(** [GetLogs] provides the log records for the given topics and blocks
    range. *)
Definition GetLogs (a : Adapter) (topics : list (list common.Hash))
    (from to : Z) : IO (list types.Log * option error) :=
  let q := {| FromBlock := from; ToBlock := to; QueryTopics := topics |} in
  request (EthFilterLogs q) (fun t => FilterLogs (ftm a) t q).

(** [TrxRecipient] provides a recipient of a transaction by hash. *)
Definition TrxRecipient (a : Adapter) (tx : common.Hash)
    : IO (common.Address * option error) :=
  r <- request (EthTransactionByHash tx)
         (fun t => TransactionByHash (ftm a) t tx) ;;
  match r with
  | TxErr err =>
      log_Println [Str "failed to get transaction"; Str err; Hsh tx] ;;;
      ret (common.zeroAddress, Some err)
  | TxOk trx _ =>
      match types.To trx with
      | None =>
          log_Printf "contract deployment at %s" [Hsh tx] ;;;
          ret (common.zeroAddress, None)
      | Some to => ret (to, None)
      end
  end.

(** What [Transaction.AsMessage] gives back for the EIP-155 signer of the
    transaction's chain: an error, or the message with its sender. *)
Inductive MessageResult : Type :=
| MsgErr (err : error)
| MsgOk (from : common.Address).

(** [TrxSender] provides address of a sender of the given transaction.
    [AsMessage] stands for go-ethereum's recovery of the sender from the
    signature. *)
Definition TrxSender (a : Adapter)
    (AsMessage : types.Transaction -> MessageResult) (tx : common.Hash)
    : IO (common.Address * option error) :=
  r <- request (EthTransactionByHash tx)
         (fun t => TransactionByHash (ftm a) t tx) ;;
  match r with
  | TxErr err =>
      log_Println [Str "failed to get transaction"; Str err; Hsh tx] ;;;
      ret (common.zeroAddress, Some err)
  | TxOk trx _ =>
      match AsMessage trx with
      | MsgErr err =>
          log_Println [Str "invalid transaction"; Str err] ;;;
          ret (common.zeroAddress, Some err)
      | MsgOk from => ret (from, None)
      end
  end.



End rpc.

(** ** Package [cfg]: the configuration the scanner reads *)

Module cfg.

(** [cfg.Config]: the declaration is not among the sources; these are the
    fields the scanner and the adapter read. *)
Record Config : Type := mkConfig {
  OperaURI : string;
  StartBlock : Z;
  ScanContract : common.Address
}.

End cfg.

(** ** Package [cache]: the recipient cache *)

Module cache.

(** The one method of the cache the scanner calls,
    [TrxRecipient(tx, loader)]: it is given the transaction hash and the
    function to fall back on, and answers with an address and an error;
    the cache it leaves behind is the third component.  The scanner's
    definitions below are written against this interface. *)
Class Cache (C : Type) : Type := {
  TrxRecipient :
    C -> common.Hash ->
    (common.Hash -> IO (common.Address * option error)) ->
    IO (common.Address * option error * C)
}.

(** Modelled from the spec: the body of [MemCache.TrxRecipient] (package
    [cache]) is missing from the sources.  The specification describes it
    as a memoizing lookup from transaction hash to recipient address: a
    cached value is returned without a round trip; otherwise the fallback
    is invoked, its result is stored and returned.  The results stored
    are the error-free ones, the zero address among them. *)
Definition MemCache : Type := gmap common.Hash common.Address.

(** Modelled from the spec: [MemCache.TrxRecipient], as described above.
    A hit answers from the map and leaves the node alone; a miss calls
    [loader], hands its answer on, and stores the address when there was no
    error. *)
Definition MemCache_TrxRecipient (c : MemCache) (tx : common.Hash)
    (loader : common.Hash -> IO (common.Address * option error))
    : IO (common.Address * option error * MemCache) :=
  match c !! tx with
  | Some adr => ret (adr, None, c)
  | None =>
      r <- loader tx ;;
      match r with
      | (adr, Some err) => ret (adr, Some err, c)
      | (adr, None) => ret (adr, None, <[tx := adr]> c)
      end
  end.

#[global] Instance MemCache_Cache : Cache MemCache :=
  {| TrxRecipient := MemCache_TrxRecipient |}.

(** What the memoizing cache holds for [tx], if anything, is the zero
    address. *)
Definition holds_zero_or_nothing (c : MemCache) (tx : common.Hash) : Prop :=
  forall adr : common.Address, c !! tx = Some adr -> adr = common.zeroAddress.

End cache.

(** ** Package [scanner]: the log puller *)

Module scanner.

(** [logBufferCapacity] represents the capacity of collected log
    records. *)
Definition logBufferCapacity : Z := 100.

(** [defaultLogsWindowSize] represents the maximal number of blocks we
    try to pull at once. *)
Definition defaultLogsWindowSize : Z := 5.

(** [logPuller]: the state of the pulling service.  [output] is the
    channel seen from the sending side: the records pushed so far, oldest
    first.  The stop signal and the wait group belong to the concurrent
    life cycle and are not part of the sequential state. *)
Record logPuller (C : Type) : Type := mkPuller {
  output : list types.Log;
  topBlock : Z;
  currentBlock : Z;
  rpc : rpc.Adapter;
  cache : C;
  topics : list (list common.Hash);
  contractMatch : common.Address -> bool
}.

Arguments mkPuller {C}.
Arguments output {C}.
Arguments topBlock {C}.
Arguments currentBlock {C}.
Arguments rpc {C}.
Arguments cache {C}.
Arguments topics {C}.
Arguments contractMatch {C}.

Section Puller.

Context {C : Type} `{cache.Cache C}.

(** Assignments to single fields. *)
Definition set_output (v : list types.Log) (lp : logPuller C) : logPuller C :=
  mkPuller v (topBlock lp) (currentBlock lp) (rpc lp) (cache lp)
    (topics lp) (contractMatch lp).

Definition set_topBlock (v : Z) (lp : logPuller C) : logPuller C :=
  mkPuller (output lp) v (currentBlock lp) (rpc lp) (cache lp)
    (topics lp) (contractMatch lp).

Definition set_currentBlock (v : Z) (lp : logPuller C) : logPuller C :=
  mkPuller (output lp) (topBlock lp) v (rpc lp) (cache lp)
    (topics lp) (contractMatch lp).

Definition set_cache (v : C) (lp : logPuller C) : logPuller C :=
  mkPuller (output lp) (topBlock lp) (currentBlock lp) (rpc lp) v
    (topics lp) (contractMatch lp).

(** [newPuller] creates a new puller service.  [LogTopicProcessor] is
    the list of the topics registered in the map of that name, in the
    order the [range] loop visits them. *)
Definition newPuller (LogTopicProcessor : list common.Hash)
    (cfg : cfg.Config) (rpc : rpc.Adapter) (cache : C) : logPuller C :=
  let topics := [foldl (fun acc t => acc ++ [t]) [] LogTopicProcessor] in
  {| output := [];
     topBlock := 0;
     currentBlock := cfg.StartBlock cfg;
     topics := topics;
     rpc := rpc;
     cache := cache;
     contractMatch := fun rc =>
       bytes_Compare (common.Bytes rc)
         (common.Bytes (cfg.ScanContract cfg)) =? 0 |}.

(** [fetchHead] updates the current known head block index. *)
Definition fetchHead (lp : logPuller C) : IO (logPuller C) :=
  r <- rpc.TopBlock (rpc lp) ;;
  let (top, err) := r in
  let lp := set_topBlock top lp in
  match err with
  | Some e =>
      log_Println [Str "error pulling the current head"; Str e] ;;;
      ret lp
  | None => ret lp
  end.

(** [nextLogs] pulls the next set of log records from the backend
    server. *)
Definition nextLogs (lp : logPuller C) : IO (list types.Log * logPuller C) :=
  if uint64.gt (currentBlock lp) (topBlock lp) then ret ([], lp)
  else
    let target := uint64.add (currentBlock lp) defaultLogsWindowSize in
    let target :=
      if uint64.gt target (topBlock lp) then topBlock lp else target in
    r <- rpc.GetLogs (rpc lp) (topics lp) (currentBlock lp) target ;;
    let (logs, err) := r in
    match err with
    | Some e =>
        log_Println [Str "failed to pull logs"; Str e] ;;;
        ret ([], lp)
    | None =>
        ret (logs, set_currentBlock (uint64.add target 1) lp)
    end.

(** [process] given event log record. *)
Definition process (lp : logPuller C) (ev : types.Log) : IO (logPuller C) :=
  r <- cache.TrxRecipient (cache lp) (types.TxHash ev)
         (rpc.TrxRecipient (rpc lp)) ;;
  let '(rec, err, c) := r in
  let lp := set_cache c lp in
  match err with
  | Some e =>
      log_Println [Str "recipient not available"; Str e] ;;;
      ret lp
  | None =>
      if negb (contractMatch lp rec) then ret lp
      else
        log_Println [Str "match"; Addr rec; Str "on"; Hsh (types.TxHash ev)] ;;;
        ret (set_output (output lp ++ [ev]) lp)
  end.

(** The case the [select] at the head of the loop takes. *)
Inductive Select : Type :=
| SigStop
| Tick
| Info
| Default.

(** One turn of the loop of [scan], for the case the [select] took and
    the records still buffered in [logs].  [None] is the [return] that
    ends the worker; otherwise the puller and the buffer for the next
    turn. *)
Definition scanTurn (sel : Select) (lp : logPuller C)
    (logs : list types.Log) : IO (option (logPuller C * list types.Log)) :=
  match sel with
  | SigStop => ret None
  | _ =>
      lp <- match sel with
            | Tick => fetchHead lp
            | Info =>
                log_Println [Str "scanner at #"; Uint (currentBlock lp);
                             Str "head at #"; Uint (topBlock lp)] ;;;
                ret lp
            | _ => ret lp
            end ;;
      match logs with
      | [] =>
          r <- nextLogs lp ;;
          let (logs, lp) := r in
          ret (Some (lp, logs))
      | record :: logs =>
          lp <- process lp record ;;
          ret (Some (lp, logs))
      end
  end.

(** The methods of the puller that touch its state, and any sequence
    of calls to them. *)
Inductive Call : Type :=
| CallFetchHead
| CallNextLogs
| CallProcess (ev : types.Log).

Definition call (c : Call) (lp : logPuller C) : IO (logPuller C) :=
  match c with
  | CallFetchHead => fetchHead lp
  | CallNextLogs => r <- nextLogs lp ;; ret (snd r)
  | CallProcess ev => process lp ev
  end.

Fixpoint calls (cs : list Call) (lp : logPuller C) : IO (logPuller C) :=
  match cs with
  | [] => ret lp
  | c :: cs => lp <- call c lp ;; calls cs lp
  end.

(** The puller compares recipients with the contract of [cfg], as the
    closure [newPuller] builds does. *)
Definition watches (cfg : cfg.Config) (lp : logPuller C) : Prop :=
  forall rc : common.Address,
    contractMatch lp rc =
    (bytes_Compare (common.Bytes rc)
       (common.Bytes (cfg.ScanContract cfg)) =? 0).

(** What recipient resolution answers for a record when [process] asks
    for it: the address and the error [TrxRecipient] of the cache
    returns. *)
Definition resolution (lp : logPuller C) (ev : types.Log) (t : Trace)
    : common.Address * option error :=
  fst (result (cache.TrxRecipient (cache lp) (types.TxHash ev)
                 (rpc.TrxRecipient (rpc lp))) t).

(** The window a call of [nextLogs] asks the node for: its upper end
    and the query. *)
Definition windowTarget (lp : logPuller C) : Z :=
  Z.min (uint64.add (currentBlock lp) defaultLogsWindowSize) (topBlock lp).

Definition windowQuery (lp : logPuller C) : FilterQuery :=
  {| FromBlock := currentBlock lp;
     ToBlock := windowTarget lp;
     QueryTopics := topics lp |}.

(** How a run of the worker stands: ended by its [return], the deferred
    function done and the output closed, or still in its loop with the
    puller and the buffer of the next turn. *)
Inductive ScanEnd : Type :=
| Terminated (lp : logPuller C)
| Running (lp : logPuller C) (logs : list types.Log).

(** The loop of [scan] from a given buffer, for the cases [sels] its
    selects take one after the other. *)
Fixpoint scanFrom (sels : list Select) (lp : logPuller C)
    (logs : list types.Log) : IO ScanEnd :=
  match sels with
  | [] => ret (Running lp logs)
  | sel :: sels =>
      r <- scanTurn sel lp logs ;;
      match r with
      | None =>
          log_Println [Str "log puller terminated"] ;;;
          ret (Terminated lp)
      | Some (lp, logs) => scanFrom sels lp logs
      end
  end.



(** The records a sequence of calls hands to [process], in order. *)
Definition processed (cs : list Call) : list types.Log :=
  omap (fun c => match c with CallProcess ev => Some ev | _ => None end) cs.

End Puller.

End scanner.

(** ** Concrete nodes, transactions and pullers *)

Module example.

Import scanner.

Definition watched : common.Address := repeat xaa common.AddressLength.
Definition stranger : common.Address := repeat xbb common.AddressLength.

Definition transferTopic : common.Hash := repeat x0d common.HashLength.

(** Four transactions: a call of the watched contract, a call of another
    one, a contract creation, and one the node does not find. *)
Definition txWatched : common.Hash := repeat x01 common.HashLength.
Definition txStranger : common.Hash := repeat x02 common.HashLength.
Definition txCreate : common.Hash := repeat x03 common.HashLength.
Definition txLost : common.Hash := repeat x04 common.HashLength.

Definition same (a b : list byte) : bool := bytes_Compare a b =? 0.

Definition lookupTx (tx : common.Hash) : TxResult :=
  if same tx txWatched then
    TxOk {| types.Hash := tx; types.To := Some watched |} false
  else if same tx txStranger then
    TxOk {| types.Hash := tx; types.To := Some stranger |} false
  else if same tx txCreate then
    TxOk {| types.Hash := tx; types.To := None |} false
  else TxErr "not found"%string.

Definition logOf (block : Z) (tx : common.Hash) : types.Log :=
  {| types.Address := stranger;
     types.Topics := [transferTopic];
     types.Data := [];
     types.BlockNumber := block;
     types.TxHash := tx |}.

(** A node with its head at [head] that answers every request; it has no
    log records. *)
Definition node (head : Z) : Client :=
  {| BlockNumber := fun _ => (head, None);
     FilterLogs := fun _ _ => ([], None);
     TransactionByHash := fun _ tx => lookupTx tx |}.

(** A node that cannot be reached: every request ends in an error, with
    the zero values go-ethereum returns beside it. *)
Definition down : Client :=
  {| BlockNumber := fun _ => (0, Some "connection refused"%string);
     FilterLogs := fun _ _ => ([], Some "connection refused"%string);
     TransactionByHash := fun _ _ => TxErr "connection refused"%string |}.

Definition config : cfg.Config :=
  {| cfg.OperaURI := "http://localhost:18545"%string;
     cfg.StartBlock := 1;
     cfg.ScanContract := watched |}.

(** A puller for [config] against [client], with an empty cache, its
    cursor at [current] and its head at [top]. *)
Definition puller (client : Client) (current top : Z)
    : logPuller cache.MemCache :=
  set_topBlock top
    (set_currentBlock current
       (newPuller [transferTopic] config (rpc.mkAdapter client) ∅)).

(** The same at the upper edge of [uint64]: cursor and head both at
    [2^64 - 1]. *)
Definition atMax : logPuller cache.MemCache :=
  puller (node uint64.max) uint64.max uint64.max.

End example.

(** * Properties *)

Import scanner.

(** ** Byte comparison *)

Lemma to_N_inj (x y : byte) : Byte.to_N x = Byte.to_N y -> x = y.
Proof.
  intros E.
  assert (Some x = Some y) as S by (rewrite <- !Byte.of_to_N; now rewrite E).
  now injection S.
Qed.

Lemma bytes_Compare_refl (a : list byte) : bytes_Compare a a = 0.
Proof.
  induction a as [|x a IH]; simpl; [reflexivity|].
  now rewrite N.compare_refl.
Qed.

Lemma bytes_Compare_eq (a b : list byte) : bytes_Compare a b = 0 -> a = b.
Proof.
  revert b; induction a as [|x a IH]; intros [|y b]; simpl; try discriminate.
  - reflexivity.
  - destruct (N.compare (Byte.to_N x) (Byte.to_N y)) eqn:E; try discriminate.
    intros Hab. apply N.compare_eq in E. apply to_N_inj in E.
    f_equal; [exact E | now apply IH].
Qed.

(** [bytes.Compare(a, b) == 0] holds exactly for equal slices. *)
Lemma bytes_Compare_0_iff (a b : list byte) :
  (bytes_Compare a b =? 0) = true <-> a = b.
Proof.
  rewrite Z.eqb_eq. split.
  - apply bytes_Compare_eq.
  - intros ->. apply bytes_Compare_refl.
Qed.

Section PullerFacts.

Context {C : Type} `{cache.Cache C}.

Lemma watches_match (cfg : cfg.Config) (lp : logPuller C) (rc : common.Address) :
  watches cfg lp -> (contractMatch lp rc = true <-> rc = cfg.ScanContract cfg).
Proof. intros W. rewrite W. apply bytes_Compare_0_iff. Qed.

Lemma newPuller_watches keys (cfg : cfg.Config) a (c : C) :
  watches cfg (newPuller keys cfg a c).
Proof. intros rc. reflexivity. Qed.

(** *** What one call of [nextLogs] does, case by case *)

Lemma nextLogs_idle (lp : logPuller C) (t : Trace) :
  currentBlock lp > topBlock lp -> nextLogs lp t = (([], lp), t).
Proof.
  intros G. unfold nextLogs, uint64.gt.
  destruct (Z.gtb_spec (currentBlock lp) (topBlock lp)); [reflexivity | lia].
Qed.

Lemma nextLogs_target (lp : logPuller C) :
  (if uint64.gt (uint64.add (currentBlock lp) defaultLogsWindowSize) (topBlock lp)
   then topBlock lp
   else uint64.add (currentBlock lp) defaultLogsWindowSize) = windowTarget lp.
Proof.
  unfold windowTarget, uint64.gt.
  destruct (Z.gtb_spec (uint64.add (currentBlock lp) defaultLogsWindowSize)
              (topBlock lp)); lia.
Qed.

Lemma nextLogs_failure (lp : logPuller C) (t : Trace) logs e :
  currentBlock lp <= topBlock lp ->
  FilterLogs (rpc.ftm (rpc lp)) t (windowQuery lp) = (logs, Some e) ->
  nextLogs lp t =
  (([], lp),
   t ++ [EthFilterLogs (windowQuery lp)]
     ++ [LogLine [Str "failed to pull logs"; Str e]]).
Proof.
  intros L F. unfold nextLogs, uint64.gt.
  destruct (Z.gtb_spec (currentBlock lp) (topBlock lp)); [lia|].
  fold (uint64.gt (uint64.add (currentBlock lp) defaultLogsWindowSize) (topBlock lp)).
  rewrite nextLogs_target.
  unfold bind, rpc.GetLogs, request. fold (windowQuery lp). rewrite F.
  unfold log_Println, ret. now rewrite <- app_assoc.
Qed.

Lemma nextLogs_success (lp : logPuller C) (t : Trace) logs :
  currentBlock lp <= topBlock lp ->
  FilterLogs (rpc.ftm (rpc lp)) t (windowQuery lp) = (logs, None) ->
  nextLogs lp t =
  ((logs, set_currentBlock (uint64.add (windowTarget lp) 1) lp),
   t ++ [EthFilterLogs (windowQuery lp)]).
Proof.
  intros L F. unfold nextLogs, uint64.gt.
  destruct (Z.gtb_spec (currentBlock lp) (topBlock lp)); [lia|].
  fold (uint64.gt (uint64.add (currentBlock lp) defaultLogsWindowSize) (topBlock lp)).
  rewrite nextLogs_target.
  unfold bind, rpc.GetLogs, request. fold (windowQuery lp). now rewrite F.
Qed.

End PullerFacts.

(** ** The window fetcher *)

(** C7. A call of [nextLogs] with the cursor beyond the head asks the node
    for nothing (the trace of requests is the one before the call), returns
    an empty batch, and leaves the cursor, and the whole puller, as they
    were. *)
Theorem nextLogs_nothing_to_pull {C : Type} (lp : logPuller C) (t : Trace) :
  currentBlock lp > topBlock lp ->
  trace_after (nextLogs lp) t = t /\
  fst (result (nextLogs lp) t) = [] /\
  currentBlock (snd (result (nextLogs lp) t)) = currentBlock lp /\
  snd (result (nextLogs lp) t) = lp.
Proof.
  intros G. unfold trace_after, result.
  rewrite (nextLogs_idle lp t G). simpl. repeat split; reflexivity.
Qed.

Lemma nextLogs_nothing_to_pull_witness :
  trace_after (nextLogs (example.puller (example.node 100) 101 100)) [] = [] /\
  fst (result (nextLogs (example.puller (example.node 100) 101 100)) []) = [] /\
  currentBlock
    (snd (result (nextLogs (example.puller (example.node 100) 101 100)) [])) = 101 /\
  snd (result (nextLogs (example.puller (example.node 100) 101 100)) []) =
  example.puller (example.node 100) 101 100.
Proof.
  apply (nextLogs_nothing_to_pull (example.puller (example.node 100) 101 100) []).
  simpl. lia.
Defined.

(** C5. When the node answers the log request of [nextLogs] with an error,
    the call returns an empty batch and the cursor after the call is the
    cursor before it; the puller is untouched, and the trace shows the one
    request and the line that reports the error. *)
Theorem nextLogs_error_keeps_cursor {C : Type} (lp : logPuller C) (t : Trace)
    (e : error) :
  currentBlock lp <= topBlock lp ->
  snd (FilterLogs (rpc.ftm (rpc lp)) t (windowQuery lp)) = Some e ->
  fst (result (nextLogs lp) t) = [] /\
  currentBlock (snd (result (nextLogs lp) t)) = currentBlock lp /\
  snd (result (nextLogs lp) t) = lp /\
  trace_after (nextLogs lp) t =
  t ++ [EthFilterLogs (windowQuery lp)]
    ++ [LogLine [Str "failed to pull logs"; Str e]].
Proof.
  intros L F.
  destruct (FilterLogs (rpc.ftm (rpc lp)) t (windowQuery lp)) as [logs err] eqn:Q.
  simpl in F. subst err. unfold trace_after, result.
  rewrite (nextLogs_failure lp t logs e L Q). simpl. repeat split; reflexivity.
Qed.

Lemma nextLogs_error_keeps_cursor_witness :
  fst (result (nextLogs (example.puller example.down 6 100)) []) = [] /\
  currentBlock (snd (result (nextLogs (example.puller example.down 6 100)) [])) = 6.
Proof.
  pose proof (nextLogs_error_keeps_cursor (example.puller example.down 6 100) []
                "connection refused"%string) as P.
  destruct P as (B & K & _).
  - simpl. lia.
  - reflexivity.
  - split; [exact B | exact K].
Defined.

(** C1. With six or more blocks outstanding the window of [nextLogs] is one
    block wider than [defaultLogsWindowSize]: from cursor 1 under head 100
    the request is for the blocks 1 to 6, whatever node is asked.  The
    upper end stays at or below the head. *)
Theorem nextLogs_window_one_too_wide (client : Client) (t : Trace) :
  let lp := example.puller client 1 100 in
  exists rest : Trace,
    trace_after (nextLogs lp) t =
    t ++ EthFilterLogs {| FromBlock := 1; ToBlock := 6;
                          QueryTopics := topics lp |} :: rest /\
    6 - currentBlock lp + 1 = defaultLogsWindowSize + 1 /\
    6 <= topBlock lp.
Proof.
  intros lp.
  destruct (FilterLogs client t (windowQuery lp)) as [logs [e|]] eqn:Q.
  - exists [LogLine [Str "failed to pull logs"; Str e]].
    unfold trace_after. rewrite (nextLogs_failure lp t logs e); try assumption.
    + repeat split; try reflexivity. simpl. lia.
    + simpl. lia.
  - exists [].
    unfold trace_after. rewrite (nextLogs_success lp t logs); try assumption.
    + repeat split; try reflexivity. simpl. lia.
    + simpl. lia.
Qed.

(** C2. With the head at 100 and the cursor at 1 the first call of
    [nextLogs] asks the node for the blocks 1 to 6, not 1 to 5, and after
    the successful fetch the cursor is 7, not 6. *)
Theorem nextLogs_first_window_1_to_6 :
  let lp := example.puller (example.node 100) 1 100 in
  trace_after (nextLogs lp) [] =
  [EthFilterLogs {| FromBlock := 1; ToBlock := 6; QueryTopics := topics lp |}] /\
  currentBlock (snd (result (nextLogs lp) [])) = 7.
Proof. split; reflexivity. Qed.

(** ** The head refresh *)

Section HeadFacts.

Context {C : Type}.

(** [fetchHead] stores whatever number comes back from the node, with or
    without an error beside it. *)
Lemma fetchHead_topBlock (lp : logPuller C) (t : Trace) :
  topBlock (result (fetchHead lp) t) = fst (BlockNumber (rpc.ftm (rpc lp)) t).
Proof.
  unfold result, fetchHead, bind, rpc.TopBlock, request.
  destruct (BlockNumber (rpc.ftm (rpc lp)) t) as [top [e|]]; reflexivity.
Qed.

Lemma fetchHead_frame (lp : logPuller C) (t : Trace) :
  let lp' := result (fetchHead lp) t in
  currentBlock lp' = currentBlock lp /\ output lp' = output lp /\
  rpc lp' = rpc lp /\ cache lp' = cache lp /\
  contractMatch lp' = contractMatch lp.
Proof.
  unfold result, fetchHead, bind, rpc.TopBlock, request.
  destruct (BlockNumber (rpc.ftm (rpc lp)) t) as [top [e|]];
    simpl; repeat split; reflexivity.
Qed.

End HeadFacts.

(** C3. A failed head refresh does not keep the stored head: with the head
    at 100 and a node that cannot be reached, [fetchHead] logs the error and
    stores the 0 that came back beside it. *)
Theorem fetchHead_error_overwrites_topBlock :
  let lp := example.puller example.down 1 100 in
  topBlock lp = 100 /\
  BlockNumber example.down [] = (0, Some "connection refused"%string) /\
  topBlock (result (fetchHead lp) []) = 0 /\
  trace_after (fetchHead lp) [] =
  [EthBlockNumber;
   LogLine [Str "error pulling the current head"; Str "connection refused"]].
Proof. repeat split; reflexivity. Qed.

(** ** The cursor *)

Lemma modulus_value : uint64.modulus = 18446744073709551616.
Proof. reflexivity. Qed.

Section CursorFacts.

Context {C : Type} `{cache.Cache C}.

(** The upper end of a window never passes the head. *)
Lemma windowTarget_le_top (lp : logPuller C) : windowTarget lp <= topBlock lp.
Proof. unfold windowTarget. lia. Qed.

(** Away from the upper edge of [uint64] the addition does not wrap, and
    the window ends [defaultLogsWindowSize] blocks after the cursor or at
    the head. *)
Lemma windowTarget_no_wrap (lp : logPuller C) :
  0 <= currentBlock lp ->
  currentBlock lp + defaultLogsWindowSize < uint64.modulus ->
  windowTarget lp =
  Z.min (currentBlock lp + defaultLogsWindowSize) (topBlock lp).
Proof.
  intros P B. unfold windowTarget, uint64.add.
  rewrite Z.mod_small; [reflexivity|].
  unfold defaultLogsWindowSize in *. lia.
Qed.

(** With enough blocks outstanding the window holds
    [defaultLogsWindowSize + 1] blocks, both ends counted. *)
Lemma windowQuery_width (lp : logPuller C) :
  0 <= currentBlock lp ->
  currentBlock lp + defaultLogsWindowSize <= topBlock lp ->
  topBlock lp < uint64.modulus ->
  ToBlock (windowQuery lp) - FromBlock (windowQuery lp) + 1 =
  defaultLogsWindowSize + 1.
Proof.
  intros P L B. simpl.
  rewrite windowTarget_no_wrap by lia. lia.
Qed.

(** One call of [nextLogs] while the head is at least
    [defaultLogsWindowSize] below [2^64]. *)
Lemma nextLogs_step (lp : logPuller C) (t : Trace) :
  0 <= currentBlock lp ->
  topBlock lp + defaultLogsWindowSize < uint64.modulus ->
  let lp' := snd (result (nextLogs lp) t) in
  topBlock lp' = topBlock lp /\
  rpc lp' = rpc lp /\
  currentBlock lp <= currentBlock lp' /\
  (currentBlock lp < currentBlock lp' <->
   currentBlock lp <= topBlock lp /\
   snd (FilterLogs (rpc.ftm (rpc lp)) t (windowQuery lp)) = None).
Proof.
  intros P B lp'. subst lp'. unfold result.
  destruct (Z_le_gt_dec (currentBlock lp) (topBlock lp)) as [L|G].
  - destruct (FilterLogs (rpc.ftm (rpc lp)) t (windowQuery lp))
      as [logs [e|]] eqn:Q.
    + rewrite (nextLogs_failure lp t logs e L Q). simpl.
      repeat split; try reflexivity; try lia.
      intros [_ F]. discriminate F.
    + rewrite (nextLogs_success lp t logs L Q). simpl.
      assert (uint64.add (windowTarget lp) 1 = windowTarget lp + 1) as E.
      { unfold uint64.add. apply Z.mod_small.
        pose proof (windowTarget_le_top lp) as T.
        rewrite windowTarget_no_wrap by (unfold defaultLogsWindowSize in *; lia).
        rewrite windowTarget_no_wrap in T
          by (unfold defaultLogsWindowSize in *; lia).
        unfold defaultLogsWindowSize in *. lia. }
      rewrite E.
      rewrite windowTarget_no_wrap by (unfold defaultLogsWindowSize in *; lia).
      unfold defaultLogsWindowSize in *.
      repeat split; try reflexivity; try lia.
  - rewrite (nextLogs_idle lp t G). simpl.
    repeat split; try reflexivity; try lia.
Qed.

(** Any number of [nextLogs] calls in a row: the head stays, the cursor
    does not go back. *)
Lemma nextLogs_run (n : nat) (lp : logPuller C) (t : Trace) :
  0 <= currentBlock lp ->
  topBlock lp + defaultLogsWindowSize < uint64.modulus ->
  let lp' := result (calls (repeat CallNextLogs n) lp) t in
  topBlock lp' = topBlock lp /\
  rpc lp' = rpc lp /\
  currentBlock lp <= currentBlock lp'.
Proof.
  revert lp t. induction n as [|n IH]; intros lp t P B.
  - simpl. repeat split; try reflexivity; lia.
  - simpl. unfold result, bind. simpl.
    destruct (nextLogs lp t) as [[logs lp1] t1] eqn:N. simpl.
    pose proof (nextLogs_step lp t P B) as S.
    unfold result in S. rewrite N in S. simpl in S.
    destruct S as (T1 & R1 & M1 & _).
    assert (0 <= currentBlock lp1) as P1 by lia.
    assert (topBlock lp1 + defaultLogsWindowSize < uint64.modulus) as B1
      by (rewrite T1; exact B).
    specialize (IH lp1 t1 P1 B1). unfold result in IH.
    destruct IH as (T2 & R2 & M2).
    repeat split; try congruence; lia.
Qed.

End CursorFacts.

(** C6, as the code has it.  While the head is at least
    [defaultLogsWindowSize] below [2^64], so that no [uint64] addition
    wraps around: across any number of [nextLogs] calls the cursor does not
    decrease, and a further call strictly increases it exactly when a fetch
    was issued (cursor at or below the head) and the node answered without
    an error, whatever records came back. *)
Theorem currentBlock_monotone {C : Type} `{cache.Cache C} (n : nat)
    (lp : logPuller C) (t : Trace) :
  0 <= currentBlock lp ->
  topBlock lp + defaultLogsWindowSize < uint64.modulus ->
  let lp1 := result (calls (repeat CallNextLogs n) lp) t in
  let t1 := trace_after (calls (repeat CallNextLogs n) lp) t in
  let lp2 := snd (result (nextLogs lp1) t1) in
  currentBlock lp <= currentBlock lp1 /\
  currentBlock lp1 <= currentBlock lp2 /\
  (currentBlock lp1 < currentBlock lp2 <->
   currentBlock lp1 <= topBlock lp1 /\
   snd (FilterLogs (rpc.ftm (rpc lp1)) t1 (windowQuery lp1)) = None).
Proof.
  intros P B lp1 t1 lp2.
  destruct (nextLogs_run n lp t P B) as (T1 & _ & M1). fold lp1 in T1, M1.
  assert (0 <= currentBlock lp1) as P1 by lia.
  assert (topBlock lp1 + defaultLogsWindowSize < uint64.modulus) as B1
    by (rewrite T1; exact B).
  destruct (nextLogs_step lp1 t1 P1 B1) as (_ & _ & M2 & S2).
  fold lp2 in M2, S2.
  split; [exact M1 | split; [exact M2 | exact S2]].
Qed.

Lemma currentBlock_monotone_witness :
  1 <= currentBlock
         (result (calls (repeat CallNextLogs 3)
                    (example.puller (example.node 100) 1 100)) []).
Proof.
  pose proof (currentBlock_monotone 3
                (example.puller (example.node 100) 1 100) []) as M.
  simpl in M. destruct M as (M & _).
  - lia.
  - rewrite modulus_value. unfold defaultLogsWindowSize. lia.
  - exact M.
Defined.

(** C6 as stated fails at the upper edge of [uint64]: with cursor and head
    both at [2^64 - 1] the fetch is issued and answered without an error,
    and the cursor comes out as 5. *)
Lemma currentBlock_wraps_at_uint64_max :
  currentBlock example.atMax <= topBlock example.atMax /\
  snd (FilterLogs (rpc.ftm (rpc example.atMax)) []
         (windowQuery example.atMax)) = None /\
  currentBlock (snd (result (nextLogs example.atMax) [])) = 5 /\
  ~ currentBlock example.atMax <=
    currentBlock (snd (result (nextLogs example.atMax) [])).
Proof.
  split; [vm_compute; discriminate|].
  split; [reflexivity|].
  split; [reflexivity|].
  vm_compute. intros L. apply L. reflexivity.
Qed.

(** ** Recipient resolution *)

(** C10. Whenever [TrxRecipient] of the adapter returns an error, the
    address beside it is the zero address. *)
Theorem TrxRecipient_error_zero_address (a : rpc.Adapter) (tx : common.Hash)
    (t : Trace) (adr : common.Address) (e : error) :
  result (rpc.TrxRecipient a tx) t = (adr, Some e) ->
  adr = common.zeroAddress.
Proof.
  unfold result, rpc.TrxRecipient, bind, request.
  destruct (TransactionByHash (rpc.ftm a) t tx) as [err | trx pending]; simpl.
  - intros E. now injection E.
  - destruct (types.To trx); simpl; intros E; discriminate E.
Qed.

Lemma TrxRecipient_error_zero_address_witness :
  fst (result (rpc.TrxRecipient (rpc.mkAdapter (example.node 100))
                 example.txLost) []) = common.zeroAddress.
Proof.
  apply (TrxRecipient_error_zero_address (rpc.mkAdapter (example.node 100))
           example.txLost [] _ "not found"%string).
  reflexivity.
Defined.

(** A transaction without a recipient resolves to the zero address, with no
    error. *)
Lemma TrxRecipient_creation (a : rpc.Adapter) (tx : common.Hash) (t : Trace)
    (trx : types.Transaction) (pending : bool) :
  TransactionByHash (rpc.ftm a) t tx = TxOk trx pending ->
  types.To trx = None ->
  result (rpc.TrxRecipient a tx) t = (common.zeroAddress, None).
Proof.
  intros Hq Hto. unfold result, rpc.TrxRecipient, bind, request.
  rewrite Hq, Hto. reflexivity.
Qed.

(** ** The match filter *)

Section FilterFacts.

Context {C : Type} `{cache.Cache C}.

(** [process] by the answer of the resolution. *)
Lemma process_result (lp : logPuller C) (ev : types.Log) (t : Trace) :
  result (process lp ev) t =
  let c := snd (result (cache.TrxRecipient (cache lp) (types.TxHash ev)
                          (rpc.TrxRecipient (rpc lp))) t) in
  match snd (resolution lp ev t) with
  | Some _ => set_cache c lp
  | None =>
      if contractMatch lp (fst (resolution lp ev t))
      then set_output (output lp ++ [ev]) (set_cache c lp)
      else set_cache c lp
  end.
Proof.
  unfold resolution, result, process, bind.
  destruct (cache.TrxRecipient (cache lp) (types.TxHash ev)
              (rpc.TrxRecipient (rpc lp)) t) as [[[rec err] c] t'].
  simpl. destruct err as [e|]; simpl; [reflexivity|].
  destruct (contractMatch lp rec); reflexivity.
Qed.

(** [process] writes the cache and the output, nothing else. *)
Lemma process_frame (lp : logPuller C) (ev : types.Log) (t : Trace) :
  let lp' := result (process lp ev) t in
  currentBlock lp' = currentBlock lp /\ topBlock lp' = topBlock lp /\
  rpc lp' = rpc lp /\ topics lp' = topics lp /\
  contractMatch lp' = contractMatch lp.
Proof.
  intros lp'. subst lp'. rewrite process_result. simpl.
  destruct (snd (resolution lp ev t));
    [| destruct (contractMatch lp (fst (resolution lp ev t)))];
    simpl; repeat split; reflexivity.
Qed.

Lemma push_changes_output (out : list types.Log) (ev : types.Log) :
  out ++ [ev] <> out.
Proof.
  intros E. apply (f_equal (@length _)) in E.
  rewrite length_app in E. simpl in E. lia.
Qed.

End FilterFacts.

(** C4. A record handed to [process] is pushed onto the output exactly when
    recipient resolution returns no error and the address it returns is,
    byte for byte, the configured contract; in every other case the output
    is left as it was. *)
Theorem process_pushes_iff_match {C : Type} `{cache.Cache C}
    (cfg : cfg.Config) (lp : logPuller C) (ev : types.Log) (t : Trace) :
  watches cfg lp ->
  let lp' := result (process lp ev) t in
  let matched :=
    snd (resolution lp ev t) = None /\
    fst (resolution lp ev t) = cfg.ScanContract cfg in
  (output lp' = output lp ++ [ev] <-> matched) /\
  (output lp' = output lp <-> ~ matched).
Proof.
  intros W lp' matched. subst lp' matched. rewrite process_result. simpl.
  pose proof (watches_match cfg lp (fst (resolution lp ev t)) W) as M.
  destruct (snd (resolution lp ev t)) as [e|]; simpl.
  - split; split.
    + intros E. symmetry in E. now apply push_changes_output in E.
    + intros [F _]. discriminate F.
    + intros _ [F _]. discriminate F.
    + reflexivity.
  - destruct (contractMatch lp (fst (resolution lp ev t))); simpl.
    + assert (fst (resolution lp ev t) = cfg.ScanContract cfg) as E
        by now apply M.
      split; split.
      * intros _. split; [reflexivity | exact E].
      * reflexivity.
      * intros P. now apply push_changes_output in P.
      * intros N. exfalso. apply N. split; [reflexivity | exact E].
    + assert (fst (resolution lp ev t) <> cfg.ScanContract cfg) as N.
      { intros E. apply M in E. discriminate E. }
      split; split.
      * intros P. symmetry in P. now apply push_changes_output in P.
      * intros [_ E]. contradiction.
      * intros _ [_ E]. contradiction.
      * reflexivity.
Qed.

Lemma process_pushes_iff_match_witness :
  output (result (process (example.puller (example.node 100) 1 100)
                    (example.logOf 3 example.txWatched)) []) =
  [example.logOf 3 example.txWatched].
Proof.
  apply (process_pushes_iff_match example.config
           (example.puller (example.node 100) 1 100)
           (example.logOf 3 example.txWatched) []).
  - intros rc. reflexivity.
  - split; reflexivity.
Defined.

(** C9. When recipient resolution fails for a record, [process] leaves the
    cursor, the head and the output as they were, and the turn of the scan
    loop that took the record off the buffer goes on with the records that
    were behind it. *)
Theorem process_failure_drops_only_record {C : Type} `{cache.Cache C}
    (lp : logPuller C) (ev : types.Log) (rest : list types.Log) (t : Trace)
    (e : error) :
  snd (resolution lp ev t) = Some e ->
  let lp' := result (process lp ev) t in
  currentBlock lp' = currentBlock lp /\
  topBlock lp' = topBlock lp /\
  output lp' = output lp /\
  result (scanTurn Default lp (ev :: rest)) t = Some (lp', rest).
Proof.
  intros F lp'.
  destruct (process_frame lp ev t) as (K & T & _). fold lp' in K, T.
  split; [exact K | split; [exact T | split]].
  - subst lp'. rewrite process_result. simpl. rewrite F. reflexivity.
  - subst lp'. unfold result, scanTurn, bind, ret.
    destruct (process lp ev t) as [lp1 t1]. reflexivity.
Qed.

Lemma process_failure_drops_only_record_witness :
  result (scanTurn Default (example.puller (example.node 100) 6 100)
            [example.logOf 6 example.txLost; example.logOf 7 example.txWatched])
    [] =
  Some (result (process (example.puller (example.node 100) 6 100)
                  (example.logOf 6 example.txLost)) [],
        [example.logOf 7 example.txWatched]).
Proof.
  apply (process_failure_drops_only_record
           (example.puller (example.node 100) 6 100)
           (example.logOf 6 example.txLost)
           [example.logOf 7 example.txWatched] [] "not found"%string).
  reflexivity.
Defined.

(** ** Contract creations *)

(** C8. For a contract creation, a transaction the node reports without a
    recipient, [TrxRecipient] returns the zero address and no error.  When
    the cache hands that answer on to [process], a puller that watches a
    contract other than the zero address finds no match in its comparison
    and pushes nothing: the record goes the way of every other mismatch. *)
Theorem creation_record_dropped {C : Type} `{cache.Cache C}
    (cfg : cfg.Config) (lp : logPuller C) (ev : types.Log) (t : Trace)
    (trx : types.Transaction) (pending : bool) :
  TransactionByHash (rpc.ftm (rpc lp)) t (types.TxHash ev) = TxOk trx pending ->
  types.To trx = None ->
  cfg.ScanContract cfg <> common.zeroAddress ->
  watches cfg lp ->
  resolution lp ev t = result (rpc.TrxRecipient (rpc lp) (types.TxHash ev)) t ->
  result (rpc.TrxRecipient (rpc lp) (types.TxHash ev)) t =
  (common.zeroAddress, None) /\
  contractMatch lp common.zeroAddress = false /\
  output (result (process lp ev) t) = output lp.
Proof.
  intros Hq Hto NZ W R.
  pose proof (TrxRecipient_creation (rpc lp) (types.TxHash ev) t trx pending
                Hq Hto) as A.
  rewrite A in R.
  assert (contractMatch lp common.zeroAddress = false) as M.
  { destruct (contractMatch lp common.zeroAddress) eqn:E; [|reflexivity].
    apply (watches_match cfg lp _ W) in E. congruence. }
  split; [exact A|]. split; [exact M|].
  rewrite process_result. simpl. rewrite R. simpl. rewrite M. reflexivity.
Qed.

Lemma creation_record_dropped_witness :
  output (result (process (example.puller (example.node 100) 1 100)
                    (example.logOf 3 example.txCreate)) []) = [].
Proof.
  apply (creation_record_dropped example.config
           (example.puller (example.node 100) 1 100)
           (example.logOf 3 example.txCreate) []
           {| types.Hash := example.txCreate; types.To := None |} false).
  - reflexivity.
  - reflexivity.
  - vm_compute. discriminate.
  - intros rc. reflexivity.
  - reflexivity.
Defined.

(** The memoizing cache hands the answer on: for a transaction the node
    reports without a recipient, resolution through a cache that holds
    nothing for it, or the zero address, is the answer of [TrxRecipient]. *)
Lemma MemCache_resolution_creation (lp : logPuller cache.MemCache)
    (ev : types.Log) (t : Trace) (trx : types.Transaction) (pending : bool) :
  TransactionByHash (rpc.ftm (rpc lp)) t (types.TxHash ev) = TxOk trx pending ->
  types.To trx = None ->
  cache.holds_zero_or_nothing (cache lp) (types.TxHash ev) ->
  resolution lp ev t = result (rpc.TrxRecipient (rpc lp) (types.TxHash ev)) t.
Proof.
  intros Hq Hto Hz.
  rewrite (TrxRecipient_creation (rpc lp) (types.TxHash ev) t trx pending
             Hq Hto).
  unfold resolution, result. simpl.
  unfold cache.MemCache_TrxRecipient.
  destruct (cache lp !! types.TxHash ev) as [adr|] eqn:L.
  - simpl. now rewrite (Hz adr L).
  - unfold bind.
    pose proof (TrxRecipient_creation (rpc lp) (types.TxHash ev) t trx pending
                  Hq Hto) as R.
    unfold result in R.
    destruct (rpc.TrxRecipient (rpc lp) (types.TxHash ev) t) as [[adr err] t'].
    simpl in R. injection R as -> ->. reflexivity.
Qed.

(** ** Any interleaving of the calls *)

Section Interleavings.

Context {C : Type} `{cache.Cache C}.

(** [nextLogs] writes the cursor, nothing else. *)
Lemma nextLogs_only_cursor (lp : logPuller C) (t : Trace) :
  exists v : Z, snd (result (nextLogs lp) t) = set_currentBlock v lp.
Proof.
  unfold result, nextLogs.
  destruct (uint64.gt (currentBlock lp) (topBlock lp)).
  - exists (currentBlock lp). now destruct lp.
  - unfold bind, rpc.GetLogs, request.
    match goal with
    | |- context [FilterLogs ?c ?tr ?q] =>
        destruct (FilterLogs c tr q) as [logs [e|]]
    end; simpl.
    + exists (currentBlock lp). now destruct lp.
    + eexists. reflexivity.
Qed.

Lemma call_frame (c : Call) (lp : logPuller C) (t : Trace) :
  rpc (result (call c lp) t) = rpc lp /\
  contractMatch (result (call c lp) t) = contractMatch lp.
Proof.
  destruct c as [| | ev]; simpl.
  - destruct (fetchHead_frame lp t) as (_ & _ & R & _ & M). now split.
  - unfold result, bind.
    destruct (nextLogs_only_cursor lp t) as [v E]. unfold result in E.
    destruct (nextLogs lp t) as [[logs lp1] t1]. simpl in *. subst lp1.
    now split.
  - destruct (process_frame lp ev t) as (_ & _ & R & _ & M). now split.
Qed.

(** Calls of [fetchHead] and [process] in between do not move the cursor
    either, as long as every head the node reports is at least
    [defaultLogsWindowSize] below [2^64]. *)
Lemma calls_currentBlock_monotone (cs : list Call) (lp : logPuller C)
    (t : Trace) :
  0 <= currentBlock lp ->
  topBlock lp + defaultLogsWindowSize < uint64.modulus ->
  (forall t' : Trace,
      fst (BlockNumber (rpc.ftm (rpc lp)) t') + defaultLogsWindowSize
      < uint64.modulus) ->
  currentBlock lp <= currentBlock (result (calls cs lp) t).
Proof.
  revert lp t. induction cs as [|c cs IH]; intros lp t P B Hn.
  - unfold result, calls, ret. simpl. lia.
  - simpl. unfold result, bind.
    pose proof (call_frame c lp t) as (R & _).
    assert (currentBlock lp <= currentBlock (result (call c lp) t) /\
            topBlock (result (call c lp) t) + defaultLogsWindowSize
            < uint64.modulus) as (M1 & B1).
    { destruct c as [| | ev]; simpl.
      - destruct (fetchHead_frame lp t) as (K & _).
        rewrite K, fetchHead_topBlock. split; [lia | apply Hn].
      - destruct (nextLogs_step lp t P B) as (T & _ & M & _).
        unfold result, bind in *.
        destruct (nextLogs lp t) as [[logs lp1] t1]. simpl in *.
        split; [exact M | now rewrite T].
      - destruct (process_frame lp ev t) as (K & T & _).
        rewrite K, T. split; [lia | exact B]. }
    unfold result in *.
    destruct (call c lp t) as [lp1 t1]. simpl in *.
    assert (0 <= currentBlock lp1) as P1 by lia.
    assert (forall t' : Trace,
               fst (BlockNumber (rpc.ftm (rpc lp1)) t') + defaultLogsWindowSize
               < uint64.modulus) as N1 by (rewrite R; exact Hn).
    specialize (IH lp1 t1 P1 B1 N1). lia.
Qed.

End Interleavings.

(** From a cache that holds nothing but the zero address for a contract
    creation, no sequence of calls brings another address into it: the
    condition on the cache in [MemCache_resolution_creation] holds in every
    state the puller reaches from an empty cache. *)
Lemma calls_keep_zero_or_nothing (cs : list Call)
    (lp : logPuller cache.MemCache) (t : Trace) (tx : common.Hash) :
  (forall t' trx pending,
      TransactionByHash (rpc.ftm (rpc lp)) t' tx = TxOk trx pending ->
      types.To trx = None) ->
  cache.holds_zero_or_nothing (cache lp) tx ->
  cache.holds_zero_or_nothing (cache (result (calls cs lp) t)) tx.
Proof.
  revert lp t. induction cs as [|c cs IH]; intros lp t Hn Hz.
  - exact Hz.
  - simpl. unfold result, bind.
    pose proof (call_frame c lp t) as (R & _).
    assert (cache.holds_zero_or_nothing (cache (result (call c lp) t)) tx) as Z1.
    { destruct c as [| | ev]; simpl.
      - destruct (fetchHead_frame lp t) as (_ & _ & _ & K & _). now rewrite K.
      - unfold result, bind.
        destruct (nextLogs_only_cursor lp t) as [v E]. unfold result in E.
        destruct (nextLogs lp t) as [[logs lp1] t1]. simpl in *. now subst lp1.
      - rewrite process_result. simpl.
        assert (cache.holds_zero_or_nothing
                  (snd (result (cache.MemCache_TrxRecipient (cache lp)
                                  (types.TxHash ev)
                                  (rpc.TrxRecipient (rpc lp))) t)) tx) as Zc.
        { unfold result, cache.MemCache_TrxRecipient.
          destruct (cache lp !! types.TxHash ev) as [adr|] eqn:L; [exact Hz|].
          cbv [bind rpc.TrxRecipient request].
          destruct (TransactionByHash (rpc.ftm (rpc lp)) t (types.TxHash ev))
            as [err | trx pending] eqn:Q; cbv [bind log_Println ret]; simpl;
            [exact Hz|].
          destruct (types.To trx) as [to|] eqn:T; simpl.
          - intros adr. unfold cache.MemCache in *.
            destruct (decide (types.TxHash ev = tx)) as [<- | D].
            + specialize (Hn t trx pending Q). congruence.
            + rewrite lookup_insert_ne by exact D. apply Hz.
          - intros adr. unfold cache.MemCache in *.
            destruct (decide (types.TxHash ev = tx)) as [<- | D].
            + rewrite lookup_insert_eq. congruence.
            + rewrite lookup_insert_ne by exact D. apply Hz. }
        destruct (snd (resolution lp ev t));
          [| destruct (contractMatch lp (fst (resolution lp ev t)))];
          exact Zc. }
    unfold result in *.
    destruct (call c lp t) as [lp1 t1]. simpl in *.
    apply IH; [rewrite R; exact Hn | exact Z1].
Qed.


(** * Further properties of the window fetcher *)

Section WindowFacts.

Context {C : Type} `{cache.Cache C}.

(** One call of [nextLogs] that finds blocks to pull, with its node's
    answer. *)
Lemma nextLogs_fetch (lp : logPuller C) (t : Trace) :
  currentBlock lp <= topBlock lp ->
  exists rest : Trace,
    trace_after (nextLogs lp) t = t ++ EthFilterLogs (windowQuery lp) :: rest.
Proof.
  intros L. unfold trace_after.
  destruct (FilterLogs (rpc.ftm (rpc lp)) t (windowQuery lp))
    as [logs [e|]] eqn:Q.
  - rewrite (nextLogs_failure lp t logs e L Q). simpl. eauto.
  - rewrite (nextLogs_success lp t logs L Q). simpl. eauto.
Qed.

(** The cursor a successful fetch leaves, away from the upper edge of
    [uint64]. *)
Lemma nextLogs_success_cursor (lp : logPuller C) (t : Trace) logs :
  0 <= currentBlock lp ->
  currentBlock lp <= topBlock lp ->
  topBlock lp + defaultLogsWindowSize < uint64.modulus ->
  FilterLogs (rpc.ftm (rpc lp)) t (windowQuery lp) = (logs, None) ->
  snd (result (nextLogs lp) t) =
  set_currentBlock
    (Z.min (currentBlock lp + defaultLogsWindowSize + 1) (topBlock lp + 1)) lp.
Proof.
  intros P L B Q. unfold result.
  rewrite (nextLogs_success lp t logs L Q). simpl. f_equal.
  unfold defaultLogsWindowSize in *.
  rewrite windowTarget_no_wrap by (unfold defaultLogsWindowSize; lia).
  unfold uint64.add, defaultLogsWindowSize. rewrite Z.mod_small; lia.
Qed.

Lemma foldl_snoc (keys acc : list common.Hash) :
  foldl (fun a t => a ++ [t]) acc keys = acc ++ keys.
Proof.
  revert acc. induction keys as [|k keys IH]; intros acc; simpl.
  - now rewrite app_nil_r.
  - rewrite IH. now rewrite <- app_assoc.
Qed.

Lemma newPuller_topics keys (cfg : cfg.Config) a (c : C) :
  topics (newPuller keys cfg a c) = [keys].
Proof. simpl. now rewrite foldl_snoc. Qed.

Lemma call_topics (c : Call) (lp : logPuller C) (t : Trace) :
  topics (result (call c lp) t) = topics lp.
Proof.
  destruct c as [| | ev]; simpl.
  - unfold result, fetchHead, bind, rpc.TopBlock, request.
    destruct (BlockNumber (rpc.ftm (rpc lp)) t) as [top [e|]]; reflexivity.
  - unfold result, bind.
    destruct (nextLogs_only_cursor lp t) as [v E]. unfold result in E.
    destruct (nextLogs lp t) as [[logs lp1] t1]. simpl in *. now subst lp1.
  - now destruct (process_frame lp ev t) as (_ & _ & _ & T & _).
Qed.

End WindowFacts.

(** X1. A fetch of [nextLogs] away from the upper edge of [uint64] asks the
    node for a range that starts at the cursor, is not empty, ends at or
    below the head, and holds at most [defaultLogsWindowSize + 1] blocks;
    it carries the topics of the puller. *)
Theorem nextLogs_window_shape {C : Type} (lp : logPuller C) (t : Trace) :
  0 <= currentBlock lp ->
  currentBlock lp <= topBlock lp ->
  currentBlock lp + defaultLogsWindowSize < uint64.modulus ->
  exists (q : FilterQuery) (rest : Trace),
    trace_after (nextLogs lp) t = t ++ EthFilterLogs q :: rest /\
    FromBlock q = currentBlock lp /\
    FromBlock q <= ToBlock q /\
    ToBlock q <= topBlock lp /\
    ToBlock q - FromBlock q + 1 <= defaultLogsWindowSize + 1 /\
    QueryTopics q = topics lp.
Proof.
  intros P L B.
  destruct (nextLogs_fetch lp t L) as [rest E].
  exists (windowQuery lp), rest. split; [exact E|]. simpl.
  rewrite windowTarget_no_wrap by assumption.
  unfold defaultLogsWindowSize in *. repeat split; lia.
Qed.

Lemma nextLogs_window_shape_witness :
  exists (q : FilterQuery) (rest : Trace),
    trace_after (nextLogs (example.puller (example.node 100) 98 100)) [] =
    [] ++ EthFilterLogs q :: rest /\
    FromBlock q = 98 /\
    FromBlock q <= ToBlock q /\
    ToBlock q <= 100 /\
    ToBlock q - FromBlock q + 1 <= defaultLogsWindowSize + 1 /\
    QueryTopics q = [[example.transferTopic]].
Proof.
  apply (nextLogs_window_shape (example.puller (example.node 100) 98 100) []).
  - simpl. lia.
  - simpl. lia.
  - simpl. rewrite modulus_value. unfold defaultLogsWindowSize. lia.
Defined.

(** X2. Windows adjoin.  After a fetch the node answered, the next window
    starts at the block after the end of this one; after a fetch that
    failed, the next call asks for the same window again. *)
Theorem nextLogs_windows_adjoin {C : Type} (lp : logPuller C) (t : Trace) :
  0 <= currentBlock lp ->
  currentBlock lp <= topBlock lp ->
  topBlock lp + defaultLogsWindowSize < uint64.modulus ->
  let lp' := snd (result (nextLogs lp) t) in
  match snd (FilterLogs (rpc.ftm (rpc lp)) t (windowQuery lp)) with
  | None => FromBlock (windowQuery lp') = ToBlock (windowQuery lp) + 1
  | Some _ => windowQuery lp' = windowQuery lp
  end.
Proof.
  intros P L B lp'. subst lp'.
  destruct (FilterLogs (rpc.ftm (rpc lp)) t (windowQuery lp))
    as [logs [e|]] eqn:Q; simpl.
  - unfold result. now rewrite (nextLogs_failure lp t logs e L Q).
  - rewrite (nextLogs_success_cursor lp t logs P L B Q). simpl.
    rewrite windowTarget_no_wrap by (unfold defaultLogsWindowSize in *; lia).
    lia.
Qed.

Lemma nextLogs_windows_adjoin_witness :
  FromBlock
    (windowQuery
       (snd (result (nextLogs (example.puller (example.node 100) 1 100)) []))) =
  ToBlock (windowQuery (example.puller (example.node 100) 1 100)) + 1.
Proof.
  apply (nextLogs_windows_adjoin (example.puller (example.node 100) 1 100) []).
  - simpl. lia.
  - simpl. lia.
  - simpl. rewrite modulus_value. unfold defaultLogsWindowSize. lia.
Defined.

(** X3. [nextLogs] never takes the cursor more than one block past the head
    the puller knows, the upper edge of [uint64] included. *)
Theorem nextLogs_stays_at_head {C : Type} (lp : logPuller C) (t : Trace) :
  0 <= topBlock lp ->
  currentBlock lp <= topBlock lp + 1 ->
  currentBlock (snd (result (nextLogs lp) t)) <= topBlock lp + 1.
Proof.
  intros P L. unfold result.
  destruct (Z_le_gt_dec (currentBlock lp) (topBlock lp)) as [Le|G].
  - destruct (FilterLogs (rpc.ftm (rpc lp)) t (windowQuery lp))
      as [logs [e|]] eqn:Q.
    + now rewrite (nextLogs_failure lp t logs e Le Q).
    + rewrite (nextLogs_success lp t logs Le Q). simpl.
      pose proof (windowTarget_le_top lp) as T.
      assert (0 <= windowTarget lp) as T0.
      { unfold windowTarget, uint64.add.
        pose proof (Z.mod_pos_bound
                      (currentBlock lp + defaultLogsWindowSize) uint64.modulus).
        rewrite modulus_value in *. lia. }
      unfold uint64.add.
      pose proof (Z.mod_le (windowTarget lp + 1) uint64.modulus).
      rewrite modulus_value in *. lia.
  - now rewrite (nextLogs_idle lp t G).
Qed.

Lemma nextLogs_stays_at_head_witness :
  currentBlock (snd (result (nextLogs example.atMax) [])) <= uint64.max + 1.
Proof.
  apply (nextLogs_stays_at_head example.atMax []).
  - vm_compute. discriminate.
  - vm_compute. discriminate.
Defined.

(** X4. Catching up.  Against a node that answers every log request, [n]
    calls of [nextLogs] take the cursor [defaultLogsWindowSize + 1] blocks
    further each, up to the block after the head, where it stays; a cursor
    already past the head is left alone. *)
Theorem nextLogs_catches_up {C : Type} `{cache.Cache C} (n : nat)
    (lp : logPuller C) (t : Trace) :
  0 <= currentBlock lp ->
  topBlock lp + defaultLogsWindowSize < uint64.modulus ->
  (forall (t' : Trace) (q : FilterQuery),
      snd (FilterLogs (rpc.ftm (rpc lp)) t' q) = None) ->
  currentBlock (result (calls (repeat CallNextLogs n) lp) t) =
  Z.max (currentBlock lp)
    (Z.min (currentBlock lp + (defaultLogsWindowSize + 1) * Z.of_nat n)
       (topBlock lp + 1)).
Proof.
  revert lp t. induction n as [|n IH]; intros lp t P B A.
  - unfold result, calls, repeat, ret. simpl. lia.
  - simpl. unfold result, bind. simpl.
    destruct (nextLogs lp t) as [[logs lp1] t1] eqn:N. simpl.
    assert (lp1 =
            set_currentBlock
              (Z.max (currentBlock lp)
                 (Z.min (currentBlock lp + defaultLogsWindowSize + 1)
                    (topBlock lp + 1))) lp) as E.
    { destruct (Z_le_gt_dec (currentBlock lp) (topBlock lp)) as [L|G].
      - destruct (FilterLogs (rpc.ftm (rpc lp)) t (windowQuery lp))
          as [logs' err] eqn:Q.
        pose proof (A t (windowQuery lp)) as Ok. rewrite Q in Ok.
        simpl in Ok. subst err.
        pose proof (nextLogs_success_cursor lp t logs' P L B Q) as S.
        unfold result in S. rewrite N in S. simpl in S. rewrite S.
        f_equal. unfold defaultLogsWindowSize. lia.
      - rewrite (nextLogs_idle lp t G) in N. injection N as _ <- _.
        replace (Z.max (currentBlock lp)
                   (Z.min (currentBlock lp + defaultLogsWindowSize + 1)
                      (topBlock lp + 1))) with (currentBlock lp)
          by (unfold defaultLogsWindowSize; lia).
        now destruct lp. }
    assert (0 <= currentBlock lp1) as P1 by (subst lp1; simpl; lia).
    assert (topBlock lp1 + defaultLogsWindowSize < uint64.modulus) as B1
      by (subst lp1; exact B).
    assert (forall (t' : Trace) (q : FilterQuery),
               snd (FilterLogs (rpc.ftm (rpc lp1)) t' q) = None) as A1
      by (subst lp1; exact A).
    specialize (IH lp1 t1 P1 B1 A1). unfold result in IH. rewrite IH.
    subst lp1. simpl. unfold defaultLogsWindowSize. lia.
Qed.

Lemma nextLogs_catches_up_witness :
  currentBlock
    (result (calls (repeat CallNextLogs 17)
               (example.puller (example.node 100) 1 100)) []) =
  Z.max 1 (Z.min (1 + (defaultLogsWindowSize + 1) * Z.of_nat 17) (100 + 1)).
Proof.
  apply (nextLogs_catches_up 17 (example.puller (example.node 100) 1 100) []).
  - simpl. lia.
  - simpl. rewrite modulus_value. unfold defaultLogsWindowSize. lia.
  - intros t' q. reflexivity.
Defined.

(** X5. A puller fresh from [newPuller] knows no head yet: its head is 0.
    Started at block 0 it therefore asks the node for block 0 alone on its
    first [nextLogs]; started at any later block it asks for nothing and
    stays as it is until a head has been fetched. *)
Theorem fresh_puller_first_nextLogs {C : Type} (keys : list common.Hash)
    (cfg : cfg.Config) (a : rpc.Adapter) (c : C) (t : Trace) :
  0 <= cfg.StartBlock cfg ->
  let lp := newPuller keys cfg a c in
  if cfg.StartBlock cfg =? 0
  then exists rest : Trace,
         trace_after (nextLogs lp) t =
         t ++ EthFilterLogs {| FromBlock := 0; ToBlock := 0;
                               QueryTopics := [keys] |} :: rest
  else nextLogs lp t = (([], lp), t).
Proof.
  intros P lp.
  destruct (Z.eqb_spec (cfg.StartBlock cfg) 0) as [E|NE].
  - assert (currentBlock lp <= topBlock lp) as L by (simpl; lia).
    destruct (nextLogs_fetch lp t L) as [rest R].
    assert (topics lp = [keys]) as T by apply newPuller_topics.
    assert (windowTarget lp = 0) as W
      by (unfold windowTarget, uint64.add; simpl; now rewrite E).
    assert (currentBlock lp = 0) as K by exact E.
    exists rest. rewrite R. unfold windowQuery. now rewrite T, W, K.
  - apply nextLogs_idle. simpl. lia.
Qed.

Lemma fresh_puller_first_nextLogs_witness :
  nextLogs (newPuller [example.transferTopic] example.config
              (rpc.mkAdapter (example.node 100)) (∅ : cache.MemCache)) [] =
  (([], newPuller [example.transferTopic] example.config
          (rpc.mkAdapter (example.node 100)) (∅ : cache.MemCache)), []).
Proof.
  apply (fresh_puller_first_nextLogs [example.transferTopic] example.config
           (rpc.mkAdapter (example.node 100)) (∅ : cache.MemCache) []).
  simpl. lia.
Defined.

(** X6. The topic filter [newPuller] builds has one position, holding the
    registered topics in the order they were visited, and no call of
    [fetchHead], [nextLogs] or [process] changes it. *)
Theorem topics_fixed_by_newPuller {C : Type} `{cache.Cache C}
    (keys : list common.Hash) (cfg : cfg.Config) (a : rpc.Adapter) (c : C)
    (cs : list Call) (t : Trace) :
  topics (result (calls cs (newPuller keys cfg a c)) t) = [keys].
Proof.
  rewrite <- (newPuller_topics keys cfg a c).
  generalize (newPuller keys cfg a c) as lp. revert t.
  induction cs as [|k cs IH]; intros t lp.
  - reflexivity.
  - simpl. unfold result, bind.
    pose proof (call_topics k lp t) as T. unfold result in T.
    destruct (call k lp t) as [lp1 t1]. simpl in T.
    specialize (IH t1 lp1). unfold result in IH. rewrite IH. exact T.
Qed.

(** * Further properties of the adapter *)

(** X7. [TrxRecipient] returns an address and no error exactly when the
    node delivered the transaction and the address is its recipient, or
    the transaction has none and the address is the zero address.  From
    the answer alone a contract creation cannot be told from a transaction
    sent to the zero address. *)
Theorem TrxRecipient_success_iff (a : rpc.Adapter) (tx : common.Hash)
    (t : Trace) (adr : common.Address) :
  result (rpc.TrxRecipient a tx) t = (adr, None) <->
  exists (trx : types.Transaction) (pending : bool),
    TransactionByHash (rpc.ftm a) t tx = TxOk trx pending /\
    (types.To trx = Some adr \/
     (types.To trx = None /\ adr = common.zeroAddress)).
Proof.
  unfold result, rpc.TrxRecipient, bind, request.
  destruct (TransactionByHash (rpc.ftm a) t tx) as [err | trx pending]; simpl.
  - split; [discriminate|]. intros (trx & p & Q & _). discriminate Q.
  - destruct (types.To trx) as [to|] eqn:T; simpl.
    + split.
      * intros E. injection E as <-. exists trx, pending. rewrite T. auto.
      * intros (trx' & p & Q & [S | [S _]]); injection Q as <- _;
          rewrite T in S; [now injection S as <- | discriminate S].
    + split.
      * intros E. injection E as <-. exists trx, pending. rewrite T. auto.
      * intros (trx' & p & Q & [S | [_ ->]]); injection Q as <- _;
          [rewrite T in S; discriminate S | reflexivity].
Qed.

(** X8. [TrxSender] returns the zero address beside every error, that of a
    failed lookup and that of a signature that does not recover; it
    returns a sender without error exactly when the node delivered the
    transaction and the recovery gave that sender. *)
Theorem TrxSender_answers (a : rpc.Adapter)
    (AsMessage : types.Transaction -> rpc.MessageResult) (tx : common.Hash)
    (t : Trace) (adr : common.Address) :
  (forall e : error,
      result (rpc.TrxSender a AsMessage tx) t = (adr, Some e) ->
      adr = common.zeroAddress) /\
  (result (rpc.TrxSender a AsMessage tx) t = (adr, None) <->
   exists (trx : types.Transaction) (pending : bool),
     TransactionByHash (rpc.ftm a) t tx = TxOk trx pending /\
     AsMessage trx = rpc.MsgOk adr).
Proof.
  unfold result, rpc.TrxSender, bind, request.
  destruct (TransactionByHash (rpc.ftm a) t tx) as [err | trx pending]; simpl.
  - split.
    + intros e E. now injection E.
    + split; [discriminate|]. intros (trx & p & Q & _). discriminate Q.
  - destruct (AsMessage trx) as [err | from] eqn:M; simpl.
    + split.
      * intros e E. now injection E.
      * split; [discriminate|].
        intros (trx' & p & Q & S). injection Q as <- _.
        rewrite M in S. discriminate S.
    + split.
      * intros e E. discriminate E.
      * split.
        -- intros E. injection E as <-. exists trx, pending. auto.
        -- intros (trx' & p & Q & S). injection Q as <- _.
           rewrite M in S. now injection S as <-.
Qed.



(** * Further properties of the match filter *)

(** X10. The condition on the watched contract in the treatment of
    contract creations is needed: a puller configured to watch the zero
    address pushes the record of every contract creation. *)
Theorem creation_record_pushed_when_watching_zero {C : Type} `{cache.Cache C}
    (cfg : cfg.Config) (lp : logPuller C) (ev : types.Log) (t : Trace)
    (trx : types.Transaction) (pending : bool) :
  TransactionByHash (rpc.ftm (rpc lp)) t (types.TxHash ev) = TxOk trx pending ->
  types.To trx = None ->
  cfg.ScanContract cfg = common.zeroAddress ->
  watches cfg lp ->
  resolution lp ev t = result (rpc.TrxRecipient (rpc lp) (types.TxHash ev)) t ->
  output (result (process lp ev) t) = output lp ++ [ev].
Proof.
  intros Hq Hto Hz W R.
  rewrite (TrxRecipient_creation (rpc lp) (types.TxHash ev) t trx pending
             Hq Hto) in R.
  assert (contractMatch lp common.zeroAddress = true) as M
    by (apply (watches_match cfg lp _ W); now rewrite Hz).
  rewrite process_result. simpl. rewrite R. simpl. rewrite M. reflexivity.
Qed.

Lemma creation_record_pushed_when_watching_zero_witness :
  output
    (result
       (process
          (newPuller [example.transferTopic]
             {| cfg.OperaURI := "http://localhost:18545"%string;
                cfg.StartBlock := 1;
                cfg.ScanContract := common.zeroAddress |}
             (rpc.mkAdapter (example.node 100)) (∅ : cache.MemCache))
          (example.logOf 3 example.txCreate)) []) =
  [] ++ [example.logOf 3 example.txCreate].
Proof.
  apply (creation_record_pushed_when_watching_zero
           {| cfg.OperaURI := "http://localhost:18545"%string;
              cfg.StartBlock := 1;
              cfg.ScanContract := common.zeroAddress |}
           (newPuller [example.transferTopic]
              {| cfg.OperaURI := "http://localhost:18545"%string;
                 cfg.StartBlock := 1;
                 cfg.ScanContract := common.zeroAddress |}
              (rpc.mkAdapter (example.node 100)) (∅ : cache.MemCache))
           (example.logOf 3 example.txCreate) []
           {| types.Hash := example.txCreate; types.To := None |} false).
  - reflexivity.
  - reflexivity.
  - reflexivity.
  - intros rc. reflexivity.
  - reflexivity.
Defined.

(** X11. Whatever calls are made, the output only grows at its end, and
    what is added is a selection, in their order, of the records handed to
    [process]: nothing pushed is taken back or reordered. *)
Theorem calls_output_selection {C : Type} `{cache.Cache C} (cs : list Call)
    (lp : logPuller C) (t : Trace) :
  exists kept : list types.Log,
    output (result (calls cs lp) t) = output lp ++ kept /\
    sublist kept (processed cs).
Proof.
  revert lp t. induction cs as [|c cs IH]; intros lp t.
  - exists []. split; [now rewrite app_nil_r | constructor].
  - simpl. unfold result, bind.
    assert (output (result (call c lp) t) = output lp /\
            sublist (@nil types.Log) (processed [c]) \/
            exists ev, c = CallProcess ev /\
                       output (result (call c lp) t) = output lp ++ [ev])
      as Step.
    { destruct c as [| | ev]; simpl.
      - left. destruct (fetchHead_frame lp t) as (_ & O & _).
        split; [exact O | constructor].
      - left. unfold result, bind.
        destruct (nextLogs_only_cursor lp t) as [v E]. unfold result in E.
        destruct (nextLogs lp t) as [[logs lp1] t1]. simpl in *. subst lp1.
        split; [reflexivity | constructor].
      - rewrite process_result. simpl.
        destruct (snd (resolution lp ev t));
          [| destruct (contractMatch lp (fst (resolution lp ev t)))]; simpl.
        + left. split; [reflexivity | apply sublist_nil_l].
        + right. exists ev. split; reflexivity.
        + left. split; [reflexivity | apply sublist_nil_l]. }
    unfold result in Step.
    destruct (call c lp t) as [lp1 t1]. simpl in Step.
    destruct (IH lp1 t1) as (kept & O & S). unfold result in O.
    destruct Step as [[O1 _] | (ev & -> & O1)].
    + exists kept. split; [now rewrite O, O1|].
      destruct c as [| | ev]; simpl; try exact S.
      now apply sublist_cons.
    + exists (ev :: kept). split.
      * rewrite O, O1. now rewrite <- app_assoc.
      * simpl. now apply sublist_skip.
Qed.

(** * The scan loop *)

Lemma Select_stop_or_not (sel : Select) : sel = SigStop \/ sel <> SigStop.
Proof. destruct sel; [now left | right | right | right]; discriminate. Qed.

Section LoopFacts.

Context {C : Type} `{cache.Cache C}.

(** A turn that does not stop: after the case of the [select], which
    leaves everything but the head alone, it either fetches, with nothing
    buffered, or hands the first buffered record to [process]. *)
Lemma scanTurn_body (sel : Select) (lp : logPuller C)
    (logs : list types.Log) (t : Trace) :
  sel <> SigStop ->
  exists (lp0 : logPuller C) (t0 : Trace),
    currentBlock lp0 = currentBlock lp /\
    output lp0 = output lp /\
    rpc lp0 = rpc lp /\
    (topBlock lp0 = topBlock lp \/
     topBlock lp0 = fst (BlockNumber (rpc.ftm (rpc lp)) t)) /\
    scanTurn sel lp logs t =
    match logs with
    | [] =>
        (Some (snd (result (nextLogs lp0) t0), fst (result (nextLogs lp0) t0)),
         trace_after (nextLogs lp0) t0)
    | ev :: rest =>
        (Some (result (process lp0 ev) t0, rest),
         trace_after (process lp0 ev) t0)
    end.
Proof.
  intros NS.
  assert (exists (lp0 : logPuller C) (t0 : Trace),
             currentBlock lp0 = currentBlock lp /\
             output lp0 = output lp /\
             rpc lp0 = rpc lp /\
             (topBlock lp0 = topBlock lp \/
              topBlock lp0 = fst (BlockNumber (rpc.ftm (rpc lp)) t)) /\
             scanTurn sel lp logs t =
             (r <- ret lp0 ;;
              match logs with
              | [] =>
                  r' <- nextLogs r ;;
                  let (logs', lp') := r' in ret (Some (lp', logs'))
              | record :: logs' =>
                  lp' <- process r record ;; ret (Some (lp', logs'))
              end) t0) as (lp0 & t0 & K & O & R & T & E).
  { destruct sel; [contradiction | | | ].
    - exists (result (fetchHead lp) t), (trace_after (fetchHead lp) t).
      destruct (fetchHead_frame lp t) as (K & O & R & _).
      repeat split; try assumption.
      + right. apply fetchHead_topBlock.
      + unfold scanTurn, bind, ret, result, trace_after.
        destruct (fetchHead lp t) as [lp0 t0]. reflexivity.
    - exists lp, (t ++ [LogLine [Str "scanner at #"; Uint (currentBlock lp);
                                 Str "head at #"; Uint (topBlock lp)]]).
      repeat split; try reflexivity. now left.
    - exists lp, t. repeat split; try reflexivity. now left. }
  exists lp0, t0. repeat split; try assumption.
  rewrite E. unfold bind, ret, result, trace_after.
  destruct logs as [|ev rest].
  - destruct (nextLogs lp0 t0) as [[logs' lp'] t']. reflexivity.
  - destruct (process lp0 ev t0) as [lp' t']. reflexivity.
Qed.

Lemma scanFrom_step (sel : Select) (sels : list Select) (lp lp1 : logPuller C)
    (logs logs1 : list types.Log) (t t1 : Trace) :
  scanTurn sel lp logs t = (Some (lp1, logs1), t1) ->
  result (scanFrom (sel :: sels) lp logs) t =
  result (scanFrom sels lp1 logs1) t1.
Proof. intros E. unfold result. simpl. unfold bind. now rewrite E. Qed.





End LoopFacts.

(** X12. The worker ends only by the stop signal: a run of the loop has
    returned exactly when one of its selects took the stop case, whatever
    the node answered in between. *)
Theorem scanFrom_terminates_iff_stopped {C : Type} `{cache.Cache C}
    (sels : list Select) (lp : logPuller C) (logs : list types.Log)
    (t : Trace) :
  (exists lp' : logPuller C,
      result (scanFrom sels lp logs) t = Terminated lp') <->
  In SigStop sels.
Proof.
  revert lp logs t. induction sels as [|sel sels IH]; intros lp logs t.
  - split; [intros [lp' E]; discriminate E | intros []].
  - destruct (Select_stop_or_not sel) as [-> | NS].
    + split; [intros _; now left | intros _; now exists lp].
    + destruct (scanTurn_body sel lp logs t NS) as (lp0 & t0 & _ & _ & _ & _ & E).
      assert (forall (lp1 : logPuller C) logs1 t1,
                 scanTurn sel lp logs t = (Some (lp1, logs1), t1) ->
                 ((exists lp', result (scanFrom (sel :: sels) lp logs) t =
                               Terminated lp') <->
                  In SigStop (sel :: sels))) as Go.
      { intros lp1 logs1 t1 E1.
        rewrite (scanFrom_step _ sels _ _ _ _ _ _ E1), (IH lp1 logs1 t1).
        split; [now right | intros [D | I]; [congruence | exact I]]. }
      destruct logs; eapply Go; exact E.
Qed.




(** X15. Draining a batch.  As many turns of the loop as there are records
    buffered, none of them taken by a timer or the stop signal, hand the
    records to [process] one by one in their order and leave the buffer
    empty; no window is fetched on the way. *)
Theorem scanFrom_drains_buffer {C : Type} `{cache.Cache C}
    (logs : list types.Log) (lp : logPuller C) (t : Trace) :
  scanFrom (repeat Default (length logs)) lp logs t =
  (Running (result (calls (map CallProcess logs) lp) t) [],
   trace_after (calls (map CallProcess logs) lp) t).
Proof.
  revert lp t. induction logs as [|ev rest IH]; intros lp t.
  - reflexivity.
  - simpl. unfold result, trace_after, bind, ret. simpl.
    destruct (process lp ev t) as [lp1 t1].
    rewrite (IH lp1 t1). reflexivity.
Qed.

(** X16. A head that falls behind the cursor pauses the scan and does not
    rewind it: when [fetchHead] stores a head below the cursor, be it a
    lower head the node reports or the number beside an error, the cursor
    stays and the next [nextLogs] asks the node for nothing. *)
Theorem fetchHead_below_cursor_pauses {C : Type} (lp : logPuller C)
    (t : Trace) :
  fst (BlockNumber (rpc.ftm (rpc lp)) t) < currentBlock lp ->
  let lp1 := result (fetchHead lp) t in
  let t1 := trace_after (fetchHead lp) t in
  currentBlock lp1 = currentBlock lp /\
  nextLogs lp1 t1 = (([], lp1), t1).
Proof.
  intros L lp1 t1.
  destruct (fetchHead_frame lp t) as (K & _). fold lp1 in K.
  split; [exact K|].
  apply nextLogs_idle. rewrite K. subst lp1. rewrite fetchHead_topBlock. lia.
Qed.

Lemma fetchHead_below_cursor_pauses_witness :
  nextLogs (result (fetchHead (example.puller example.down 7 100)) [])
    (trace_after (fetchHead (example.puller example.down 7 100)) []) =
  (([], result (fetchHead (example.puller example.down 7 100)) []),
   trace_after (fetchHead (example.puller example.down 7 100)) []).
Proof.
  apply (fetchHead_below_cursor_pauses (example.puller example.down 7 100) []).
  simpl. lia.
Defined.

(** X17. In every state a puller made by [newPuller] reaches, its match
    predicate accepts a recipient exactly when it is, byte for byte, the
    configured contract. *)
Theorem contractMatch_is_equality {C : Type} `{cache.Cache C}
    (keys : list common.Hash) (cfg : cfg.Config) (a : rpc.Adapter) (c : C)
    (cs : list Call) (t : Trace) (rc : common.Address) :
  contractMatch (result (calls cs (newPuller keys cfg a c)) t) rc = true <->
  rc = cfg.ScanContract cfg.
Proof.
  assert (forall (lp : logPuller C) (t0 : Trace),
             contractMatch (result (calls cs lp) t0) = contractMatch lp) as F.
  { induction cs as [|k cs IH]; intros lp t0.
    - reflexivity.
    - simpl. unfold result, bind.
      pose proof (call_frame k lp t0) as (_ & M). unfold result in M.
      destruct (call k lp t0) as [lp1 t1]. simpl in M.
      specialize (IH lp1 t1). unfold result in IH. now rewrite IH. }
  rewrite F. simpl. apply bytes_Compare_0_iff.
Qed.
